(** * ipfshttpclient.client: the version gate, [connect] and session handling

    A shallow embedding of [ipfshttpclient/client/__init__.py].

    - Python [str] is [string]; a character is a code point below 256.
    - Python [int] is [Z]; lists and tuples of integers are [list Z].
    - A [dict] with string keys is a [gmap string _], a [set] a [gset _].
    - Exceptions are values of [exn]; a call that may raise returns a
      [result]; code that also reads or writes program state runs in the
      state-and-exception monad [M S]. *)

From Stdlib Require Import ZArith Ascii String Lia.
From stdpp Require Import base list strings gmap.

Local Open Scope Z_scope.

(** ** Exceptions and outcomes *)

Inductive exn : Type :=
  | VersionMismatch (version minimum maximum : list Z)
  | ValueError
  | IndexError
  | KeyError (key : string)
  | AssertionError
  | ConnectionError
  | ProtocolError
  | StatusError
  | ErrorResponse
  | TimeoutError.

Inductive result (A : Type) : Type :=
  | Ok (a : A)
  | Raise (e : exn).
Arguments Ok {A} a.
Arguments Raise {A} e.

#[global] Instance result_ret : MRet result := λ A a, Ok a.
#[global] Instance result_bind : MBind result := λ A B f r,
  match r with
  | Ok a => f a
  | Raise e => Raise e
  end.

(** State [S] is threaded through every call; a raised exception keeps the
    state reached so far. *)
Definition M (S A : Type) : Type := S → S * result A.

#[global] Instance M_ret {S} : MRet (M S) := λ A a s, (s, Ok a).
#[global] Instance M_bind {S} : MBind (M S) := λ A B f m s,
  match m s with
  | (s', Ok a) => f a s'
  | (s', Raise e) => (s', Raise e)
  end.

Definition raise {S A} (e : exn) : M S A := λ s, (s, Raise e).

(** A call of a function that touches no state. *)
Definition pure {S A} (r : result A) : M S A := λ s, (s, r).

(** [for x in xs: body] *)
Fixpoint for_ {S A} (xs : list A) (body : A → M S unit) : M S unit :=
  match xs with
  | [] => mret tt
  | x :: xs' => body x ;; for_ xs' body
  end.

(** ** Built-ins used by the module *)

(** [s.split(sep, maxsplit)] for a one-character separator; [maxsplit] is
    [None] when the argument is left out. *)
Fixpoint split (sep : ascii) (maxsplit : option nat) (s : string) : list string :=
  match s with
  | EmptyString => [EmptyString]
  | String c s' =>
      match maxsplit with
      | Some O => [s]
      | _ =>
          if Ascii.eqb c sep
          then EmptyString :: split sep (pred <$> maxsplit) s'
          else match split sep maxsplit s' with
               | piece :: pieces => String c piece :: pieces
               | [] => [String c EmptyString]
               end
      end
  end.

(** [l[i]] for a non-negative index. *)
Definition list_getitem {A} (l : list A) (i : nat) : result A :=
  match l !! i with
  | Some x => Ok x
  | None => Raise IndexError
  end.

(** White space as [int] sees it: tab, line feed, vertical tab, form feed,
    carriage return and space, and the two further spaces below 256
    (next line, no-break space). *)
Definition py_isspace (c : ascii) : bool :=
  let n := N_of_ascii c in
  ((9 <=? n)%N && (n <=? 13)%N) || (n =? 32)%N || (n =? 133)%N || (n =? 160)%N.

Definition digit_value (c : ascii) : option Z :=
  let n := N_of_ascii c in
  if ((48 <=? n)%N && (n <=? 57)%N) then Some (Z.of_N n - 48) else None.

Fixpoint skip_space (s : string) : string :=
  match s with
  | String c s' => if py_isspace c then skip_space s' else s
  | EmptyString => s
  end.

(** The digit loop of [int]: digits with single underscores between them.
    Returns the value, whether a digit was read, and the unread rest. *)
Fixpoint scan_digits (s : string) (prev_underscore : bool) (seen : bool) (acc : Z)
  : result (Z * bool * string) :=
  match s with
  | String c s' =>
      if Ascii.eqb c "_"
      then (if prev_underscore then Raise ValueError
            else scan_digits s' true seen acc)
      else match digit_value c with
           | Some d => scan_digits s' false true (10 * acc + d)
           | None => if prev_underscore then Raise ValueError
                     else Ok (acc, seen, s)
           end
  | EmptyString => if prev_underscore then Raise ValueError
                   else Ok (acc, seen, s)
  end.

(** [int(s)] on a string, base 10: optional white space, an optional sign,
    digits (single underscores allowed between them), optional white space.
    The result is unbounded. Digits and spaces from code point 256 on, and
    an interpreter's optional cap on the number of digits, are outside this
    model. *)
Definition int (s : string) : result Z :=
  let s1 := skip_space s in
  let '(sign, s2) :=
    match s1 with
    | String "+" r => (1, r)
    | String "-" r => (-1, r)
    | _ => (1, s1)
    end in
  match s2 with
  | String "_" _ => Raise ValueError
  | _ =>
      '(value, seen, rest) ← scan_digits s2 false false 0;
      if negb seen then Raise ValueError
      else match skip_space rest with
           | EmptyString => Ok (sign * value)
           | _ => Raise ValueError
           end
  end.

(** Rich comparison of two lists (or tuples) of integers: the first pair of
    unequal items decides; when there is none, the lengths decide. *)
Inductive cmpop : Type := Py_LT | Py_LE | Py_EQ | Py_NE | Py_GT | Py_GE.

Definition cmp_Z (op : cmpop) (x y : Z) : bool :=
  match op with
  | Py_LT => x <? y
  | Py_LE => x <=? y
  | Py_EQ => x =? y
  | Py_NE => negb (x =? y)
  | Py_GT => x >? y
  | Py_GE => x >=? y
  end.

Fixpoint list_richcompare (op : cmpop) (v w : list Z) : bool :=
  match v, w with
  | x :: v', y :: w' =>
      if x =? y then list_richcompare op v' w' else cmp_Z op x y
  | _, _ => cmp_Z op (Z.of_nat (length v)) (Z.of_nat (length w))
  end.

(** ** Module constants *)

Definition VERSION_MINIMUM : string := "0.4.21".
Definition VERSION_BLACKLIST : list string := [].
Definition VERSION_MAXIMUM : string := "0.6.0".

(** ** The version gate *)

(** [list(map(int, v.split('-', 1)[0].split('.')))] *)
Definition int_tuple (v : string) : result (list Z) :=
  prefix ← list_getitem (split "-" (Some 1%nat) v) 0;
  mapM int (split "." None prefix).

Definition assert_version {S} (version minimum maximum : string)
    (blacklist : list string) : M S unit :=
  version ← pure (int_tuple version);
  minimum ← pure (int_tuple minimum);
  maximum ← pure (int_tuple maximum);
  if list_richcompare Py_GT minimum version
     || list_richcompare Py_GE version maximum
  then raise (VersionMismatch version minimum maximum)
  else
    for_ blacklist (λ blacklisted,
      blacklisted ← pure (int_tuple blacklisted);
      if list_richcompare Py_EQ version blacklisted
      then raise (VersionMismatch version minimum maximum)
      else mret tt).

(** ** Sessions *)

(** A pooled-connection handle. *)
Definition Session : Type := nat.

(** Modelled from the spec: the HTTP backend held in [self._client], with its
    [open_session] and [close_session] (module [http], not in this file).
    The spec gives a Client "an optional open session (pooled connection
    handle)", a Session "owned exclusively by one Client; released on close",
    and the rule "at most one session is open per Client at a time; closing
    when none is open is a no-op". [acquired] records the handles taken from
    the pool and not yet released, so that a leaked connection is visible in
    the state. *)
Record HTTPClient : Type := {
  _session : option Session;
  acquired : list Session;
  next_handle : Session
}.

Section Sessions.
(** What [open_session] reports when a session is already open; the spec
    leaves it open whether that call fails or returns. *)
Variable on_reopen : result unit.

(** Modelled from the spec: "entering a session context opens a pooled
    connection"; with a session already open no second one is taken. *)
Definition open_session : M HTTPClient unit := λ h,
  match _session h with
  | Some _ => (h, on_reopen)
  | None =>
      let s := next_handle h in
      ({| _session := Some s; acquired := s :: acquired h;
          next_handle := Datatypes.S s |}, Ok tt)
  end.
End Sessions.

(** Modelled from the spec: "released on close"; "closing when none is open
    is a no-op". *)
Definition close_session : M HTTPClient unit := λ h,
  match _session h with
  | Some s =>
      ({| _session := None;
          acquired := filter (λ s', s' ≠ s) (acquired h);
          next_handle := next_handle h |}, Ok tt)
  | None => (h, Ok tt)
  end.

(** ** The client object *)

(** The attributes of a [Client] that this module reads or writes. *)
Record Client : Type := {
  chunk_size : N;
  _workarounds : gset string;
  _client : HTTPClient
}.

(** Run a method of [self._client]. *)
Definition on_client {A} (m : M HTTPClient A) : M Client A := λ self,
  let '(h, r) := m (_client self) in
  ({| chunk_size := chunk_size self; _workarounds := _workarounds self;
      _client := h |}, r).

(** [client._workarounds.add(name)] *)
Definition add_workaround (name : string) (self : Client) : Client :=
  {| chunk_size := chunk_size self;
     _workarounds := {[ name ]} ∪ _workarounds self;
     _client := _client self |}.

Definition close : M Client unit := on_client close_session.

(** [__enter__] returns [self], which here is the threaded state. *)
Definition __enter__ (on_reopen : result unit) : M Client unit :=
  on_client (open_session on_reopen).

(** [__exit__] returns [None], so an exception of the scope propagates. *)
Definition __exit__ (exc_type : option string) (exc_value : option exn)
    (traceback : option (list string)) : M Client unit :=
  close.

Definition class_name (e : exn) : string :=
  match e with
  | VersionMismatch _ _ _ => "VersionMismatch"
  | ValueError => "ValueError"
  | IndexError => "IndexError"
  | KeyError _ => "KeyError"
  | AssertionError => "AssertionError"
  | ConnectionError => "ConnectionError"
  | ProtocolError => "ProtocolError"
  | StatusError => "StatusError"
  | ErrorResponse => "ErrorResponse"
  | TimeoutError => "TimeoutError"
  end.

(** [with client: body], by the rules of the [with] statement: [__exit__]
    runs only once [__enter__] has returned, with the exception of the body
    or three [None]s. *)
Definition with_ {A} (on_reopen : result unit) (body : M Client A) : M Client A :=
  λ self,
  match __enter__ on_reopen self with
  | (self1, Raise e) => (self1, Raise e)
  | (self1, Ok _) =>
      match body self1 with
      | (self2, Ok a) =>
          match __exit__ None None None self2 with
          | (self3, Ok _) => (self3, Ok a)
          | (self3, Raise e) => (self3, Raise e)
          end
      | (self2, Raise e) =>
          match __exit__ (Some (class_name e)) (Some e) (Some []) self2 with
          | (self3, Ok _) => (self3, Raise e)
          | (self3, Raise e') => (self3, Raise e')
          end
      end
  end.

(** Sequences of session operations issued by a caller; an exception raised
    by one of them is caught by the caller, who goes on. *)
Inductive session_op : Type := Enter | Close.

Definition run_op (on_reopen : result unit) (o : session_op) : M Client unit :=
  match o with
  | Enter => __enter__ on_reopen
  | Close => close
  end.

(** All states the client goes through, the first one included. *)
Fixpoint states (on_reopen : result unit) (ops : list session_op)
    (self : Client) : list Client :=
  match ops with
  | [] => [self]
  | o :: ops' => self :: states on_reopen ops' (fst (run_op on_reopen o self))
  end.

(** ** [connect] *)

Section Connect.
(** The daemon and whatever else the constructor and the version query
    touch. *)
Context {World Addr Defaults : Type}.
(** [Client(addr, base, chunk_size=…, session=…, **defaults)] *)
Variable Client_init : Addr → string → N → bool → Defaults → M World Client.
(** [client.version()]: the decoded response of the daemon. *)
Variable Client_version : Client → M World (gmap string string).

(** [d[key]] *)
Definition dict_getitem {V} (d : gmap string V) (key : string) : result V :=
  match d !! key with
  | Some v => Ok v
  | None => Raise (KeyError key)
  end.

Definition connect (addr : Addr) (base : string) (chunk_size : N)
    (session : bool) (defaults : Defaults) : M World Client :=
  client ← Client_init addr base chunk_size session defaults;
  response ← Client_version client;
  version_str ← pure (dict_getitem response "Version");
  assert_version version_str VERSION_MINIMUM VERSION_MAXIMUM VERSION_BLACKLIST;;
  version ← pure (int_tuple version_str);
  let client :=
    if list_richcompare Py_LT version [0; 5]
    then add_workaround "use_http_head_for_no_result" client
    else client in
  mret client.
End Connect.

(** ** Notions used to state the properties *)

(** The part of a version string before its first ["-"]. *)
Fixpoint before_dash (s : string) : string :=
  match s with
  | EmptyString => EmptyString
  | String c s' => if Ascii.eqb c "-" then EmptyString else String c (before_dash s')
  end.

(** Lexicographic order on integer lists, a proper prefix being smaller. *)
Inductive lex_lt : list Z → list Z → Prop :=
  | lex_lt_nil y w : lex_lt [] (y :: w)
  | lex_lt_head x v y w : x < y → lex_lt (x :: v) (y :: w)
  | lex_lt_tail x v w : lex_lt v w → lex_lt (x :: v) (x :: w).

Definition lex_le (v w : list Z) : Prop := v = w ∨ lex_lt v w.

(** The acceptance condition of the version gate on parsed versions. *)
Definition supported (V Mn Mx : list Z) (Bl : list (list Z)) : Prop :=
  lex_le Mn V ∧ lex_lt V Mx ∧ V ∉ Bl.

(** The accept/reject decision, once every argument is parsed. *)
Definition gate (V Mn Mx : list Z) (Bl : list (list Z)) : result unit :=
  if list_richcompare Py_GT Mn V || list_richcompare Py_GE V Mx
  then Raise (VersionMismatch V Mn Mx)
  else if bool_decide (V ∈ Bl) then Raise (VersionMismatch V Mn Mx) else Ok tt.

(** A version string is well formed when [int] accepts every dot-separated
    component of the part before its first ["-"]. *)
Definition well_formed (v : string) : Prop :=
  Forall (λ c, int c ≠ Raise ValueError) (split "." None (before_dash v)).

Definition malformed (v : string) : Prop :=
  Exists (λ c, int c = Raise ValueError) (split "." None (before_dash v)).

(** The two states of the session state machine. *)
Inductive session_state : Type := closed | open.

Definition state_of (self : Client) : session_state :=
  match _session (_client self) with
  | Some _ => open
  | None => closed
  end.

(** Number of pooled connections the client holds. *)
Definition open_sessions (self : Client) : nat := length (acquired (_client self)).

(** The handles taken from the pool are exactly the session in the slot. *)
Definition session_inv (self : Client) : Prop :=
  acquired (_client self) = option_list (_session (_client self)).

(** Number of occurrences of a character in a string. *)
Fixpoint count_char (c : ascii) (s : string) : nat :=
  match s with
  | EmptyString => 0%nat
  | String c' s' => (if Ascii.eqb c' c then 1 else 0)%nat + count_char c s'
  end.

(** What [int] does once white space and sign are read: the digits, then
    trailing white space up to the end. *)
Definition int_digits (sign : Z) (s2 : string) : result Z :=
  match s2 with
  | String c _ =>
      if Ascii.eqb c "_" then Raise ValueError
      else
        '(value, seen, rest) ← scan_digits s2 false false 0;
        if negb seen then Raise ValueError
        else match skip_space rest with
             | EmptyString => Ok (sign * value)
             | _ => Raise ValueError
             end
  | EmptyString => Raise ValueError
  end.

(** The versions the gate accepts with the module's own bounds: 0.4.p with
    p from 21 on, 0.5 with anything after it, and the bare 0.6. *)
Definition default_supported (V : list Z) : Prop :=
  (∃ p rest, V = 0 :: 4 :: p :: rest ∧ 21 ≤ p)
  ∨ (∃ rest, V = 0 :: 5 :: rest)
  ∨ V = [0; 6].

(** ** The built-ins on sample inputs *)

Example split_samples :
  split "-" (Some 1%nat) "0.5.0-rc1-x" = ["0.5.0"; "rc1-x"]
  ∧ split "-" (Some 1%nat) "-dev" = [""; "dev"]
  ∧ split "." None "0.5.0" = ["0"; "5"; "0"]
  ∧ split "." None "0..1" = ["0"; ""; "1"]
  ∧ split "." None "" = [""].
Proof. repeat split. Qed.

Example int_samples :
  map int ["21"; "021"; " 7 "; "+7"; "-7"; "1_0"]
  = [Ok 21; Ok 21; Ok 7; Ok 7; Ok (-7); Ok 10]
  ∧ map int [""; "x"; "+"; "+ 7"; "1__0"; "_1"; "1_"; "1 2"; "0x10"]
  = replicate 9 (Raise ValueError).
Proof. split; reflexivity. Qed.

Example list_richcompare_samples :
  list_richcompare Py_GT [0; 4; 21] [0; 4; 20] = true
  ∧ list_richcompare Py_GE [0; 6; 0] [0; 6; 0] = true
  ∧ list_richcompare Py_GE [0; 6] [0; 6; 0] = false
  ∧ list_richcompare Py_GT [0; 4; 21] [0] = true
  ∧ list_richcompare Py_EQ [0; 5] [0; 5; 0] = false.
Proof. repeat split. Qed.

(** ** Splitting and parsing *)

Lemma split_nonempty sep maxsplit s : split sep maxsplit s ≠ [].
Proof.
  revert maxsplit. induction s as [|c s IH]; intros maxsplit; simpl; [done|].
  destruct maxsplit as [[|n]|]; try done;
    destruct (Ascii.eqb c sep); try done;
    match goal with |- context [split ?a ?b s] => destruct (split a b s) end; done.
Qed.

(** [v.split('-', 1)[0]] is the part of [v] before its first dash. *)
Lemma split_dash_head v :
  list_getitem (split "-" (Some 1%nat) v) 0 = Ok (before_dash v).
Proof.
  unfold list_getitem. induction v as [|c v IH]; simpl; [done|].
  destruct (Ascii.eqb c "-"); simpl; [done|].
  destruct (split "-" (Some 1%nat) v) as [|piece pieces] eqn:E; simpl in *.
  - by apply split_nonempty in E.
  - by injection IH as ->.
Qed.

Lemma int_tuple_before_dash v :
  int_tuple v = mapM int (split "." None (before_dash v)).
Proof. unfold int_tuple. by rewrite split_dash_head. Qed.

Lemma scan_digits_raise s p seen acc e :
  scan_digits s p seen acc = Raise e → e = ValueError.
Proof.
  revert p seen acc. induction s as [|c s IH]; intros p seen acc; simpl.
  - destruct p; congruence.
  - destruct (Ascii.eqb c "_").
    + destruct p; [congruence | apply IH].
    + destruct (digit_value c); [apply IH|]. destruct p; congruence.
Qed.

(** [int] raises nothing but [ValueError]. *)
Lemma int_raise s e : int s = Raise e → e = ValueError.
Proof.
  unfold int.
  set (p := match skip_space s with
            | String "+" r => (1, r)
            | String "-" r => (-1, r)
            | _ => (1, skip_space s)
            end).
  destruct p as [sign s2].
  assert (H : ∀ B (k : Z * bool * string → result B),
             (∀ x e', k x = Raise e' → e' = ValueError) →
             (scan_digits s2 false false 0 ≫= k) = Raise e → e = ValueError).
  { intros B k Hk. unfold mbind, result_bind.
    destruct (scan_digits s2 false false 0) as [x|e'] eqn:E.
    - apply Hk.
    - intros [= <-]. by apply scan_digits_raise in E. }
  assert (Hk : ∀ (x : Z * bool * string) e',
             (let '(value, seen, rest) := x in
              if negb seen then Raise ValueError
              else match skip_space rest with
                   | EmptyString => Ok (sign * value)
                   | String _ _ => Raise ValueError
                   end) = Raise e' → e' = ValueError).
  { intros [[value seen] rest] e'. destruct seen; simpl; [|congruence].
    destruct (skip_space rest); congruence. }
  destruct s2 as [|c s2']; [by apply H|].
  destruct (Ascii.eqb c "_") eqn:Ec.
  - apply Ascii.eqb_eq in Ec as ->. congruence.
  - revert H. generalize (scan_digits (String c s2') false false 0).
    intros r H. 
    assert (c ≠ "_"%char) by (by apply Ascii.eqb_neq).
    destruct c as [[] [] [] [] [] [] [] []]; try done; by apply H.
Qed.

Lemma mapM_int_cons c l :
  mapM int (c :: l) =
  match int c with
  | Ok z => match mapM int l with
            | Ok L => Ok (z :: L)
            | Raise e => Raise e
            end
  | Raise e => Raise e
  end.
Proof. reflexivity. Qed.

Lemma mapM_int_raise l e : mapM int l = Raise e → e = ValueError.
Proof.
  induction l as [|c l IH]; [done|]. rewrite mapM_int_cons.
  destruct (int c) eqn:E; [|intros [= <-]; by apply int_raise in E].
  destruct (mapM int l); [done|]. intros [= <-]. by apply IH.
Qed.

Lemma mapM_int_ok l :
  Forall (λ c, int c ≠ Raise ValueError) l ↔ ∃ L, mapM int l = Ok L.
Proof.
  induction l as [|c l IH].
  - split; [by exists []|constructor].
  - rewrite mapM_int_cons. split.
    + intros [Hc [L HL]%IH]%Forall_cons. rewrite HL.
      destruct (int c) as [z|e] eqn:E; [by eexists|].
      pose proof (int_raise _ _ E) as ->. done.
    + intros [L HL]. destruct (int c) as [z|e] eqn:E; [|done].
      constructor; [congruence|]. apply IH.
      destruct (mapM int l); [by eexists|done].
Qed.

Lemma mapM_int_error l :
  Exists (λ c, int c = Raise ValueError) l ↔ mapM int l = Raise ValueError.
Proof.
  induction l as [|c l IH].
  - split; [by intros ?%Exists_nil|done].
  - rewrite mapM_int_cons, Exists_cons, IH.
    destruct (int c) as [z|e] eqn:E.
    + destruct (mapM int l); intuition congruence.
    + pose proof (int_raise _ _ E) as ->. split; [done|by left].
Qed.

Lemma well_formed_parses v : well_formed v ↔ ∃ V, int_tuple v = Ok V.
Proof. unfold well_formed. rewrite int_tuple_before_dash. apply mapM_int_ok. Qed.

Lemma malformed_raises v : malformed v ↔ int_tuple v = Raise ValueError.
Proof. unfold malformed. rewrite int_tuple_before_dash. apply mapM_int_error. Qed.

Lemma int_tuple_raise v e : int_tuple v = Raise e → e = ValueError.
Proof. rewrite int_tuple_before_dash. apply mapM_int_raise. Qed.

(** ** List comparison is the lexicographic order *)

Lemma lex_lt_cons x v y w :
  lex_lt (x :: v) (y :: w) ↔ x < y ∨ (x = y ∧ lex_lt v w).
Proof.
  split.
  - inversion 1; subst; auto.
  - intros [?|[-> ?]]; [by apply lex_lt_head | by apply lex_lt_tail].
Qed.

Lemma lex_lt_nil_r v : ¬ lex_lt v [].
Proof. inversion 1. Qed.

Lemma lex_lt_irrefl v : ¬ lex_lt v v.
Proof.
  induction v as [|x v IH]; [apply lex_lt_nil_r|].
  rewrite lex_lt_cons. intros [?|[_ ?]]; [lia|done].
Qed.

Lemma lex_le_cons x v y w :
  lex_le (x :: v) (y :: w) ↔ x < y ∨ (x = y ∧ lex_le v w).
Proof.
  unfold lex_le. rewrite lex_lt_cons. split.
  - intros [[= -> ->]|[?|[-> ?]]]; auto.
  - intros [?|[-> [->|?]]]; auto.
Qed.

Lemma richcompare_LT v w : list_richcompare Py_LT v w = true ↔ lex_lt v w.
Proof.
  revert w. induction v as [|x v IH]; intros [|y w]; simpl.
  - split; [done|by intros ?%lex_lt_nil_r].
  - split; [constructor|done].
  - split; [done|by intros ?%lex_lt_nil_r].
  - rewrite lex_lt_cons. destruct (Z.eqb_spec x y) as [->|Hne].
    + rewrite IH. intuition lia.
    + rewrite Z.ltb_lt. intuition lia.
Qed.

Lemma richcompare_GT v w : list_richcompare Py_GT v w = true ↔ lex_lt w v.
Proof.
  revert w. induction v as [|x v IH]; intros [|y w]; simpl.
  - split; [done|by intros ?%lex_lt_nil_r].
  - split; [done|by intros ?%lex_lt_nil_r].
  - split; [constructor|done].
  - rewrite lex_lt_cons. destruct (Z.eqb_spec x y) as [->|Hne].
    + rewrite IH. intuition lia.
    + rewrite Z.gtb_ltb, Z.ltb_lt. intuition lia.
Qed.

Lemma richcompare_GT_false v w : list_richcompare Py_GT v w = false ↔ lex_le v w.
Proof.
  revert w. induction v as [|x v IH]; intros [|y w]; simpl.
  - split; [by left|done].
  - split; [right; constructor|done].
  - split; [done|]. by intros [?|?%lex_lt_nil_r].
  - rewrite lex_le_cons. destruct (Z.eqb_spec x y) as [->|Hne].
    + rewrite IH. intuition lia.
    + rewrite Z.gtb_ltb, Z.ltb_ge. intuition lia.
Qed.

Lemma richcompare_GE_false v w : list_richcompare Py_GE v w = false ↔ lex_lt v w.
Proof.
  revert w. induction v as [|x v IH]; intros [|y w]; simpl.
  - split; [done|by intros ?%lex_lt_nil_r].
  - split; [constructor|done].
  - split; [done|by intros ?%lex_lt_nil_r].
  - rewrite lex_lt_cons. destruct (Z.eqb_spec x y) as [->|Hne].
    + rewrite IH. intuition lia.
    + rewrite Z.geb_leb, Z.leb_gt. intuition lia.
Qed.

Lemma richcompare_EQ v w : list_richcompare Py_EQ v w = true ↔ v = w.
Proof.
  revert w. induction v as [|x v IH]; intros [|y w]; simpl; try done.
  destruct (Z.eqb_spec x y) as [->|Hne].
  - rewrite IH. split; congruence.
  - split; congruence.
Qed.

Lemma lex_lt_app v rest : rest ≠ [] → lex_lt v (v ++ rest).
Proof.
  intros Hrest. induction v as [|x v IH]; simpl.
  - destruct rest; [done|constructor].
  - by apply lex_lt_tail.
Qed.

(** ** The gate on parsed versions *)

Lemma gate_ok V Mn Mx Bl : gate V Mn Mx Bl = Ok tt ↔ supported V Mn Mx Bl.
Proof.
  unfold gate, supported.
  rewrite <- richcompare_GT_false, <- richcompare_GE_false.
  destruct (list_richcompare Py_GT Mn V), (list_richcompare Py_GE V Mx); simpl;
    try (split; [done|intros (?&?&?); done]).
  case_bool_decide; intuition congruence.
Qed.

Lemma gate_raise V Mn Mx Bl :
  ¬ supported V Mn Mx Bl → gate V Mn Mx Bl = Raise (VersionMismatch V Mn Mx).
Proof.
  rewrite <- gate_ok. unfold gate.
  destruct (_ || _); [done|]. by case_bool_decide.
Qed.

Lemma for_cons {S A} (x : A) xs (body : A → M S unit) s :
  for_ (x :: xs) body s =
  match body x s with
  | (s', Ok _) => for_ xs body s'
  | (s', Raise e) => (s', Raise e)
  end.
Proof. reflexivity. Qed.

Lemma blacklist_loop {S} (s : S) V Mn Mx bl Bl :
  Forall2 (λ b B, int_tuple b = Ok B) bl Bl →
  for_ bl (λ blacklisted,
    blacklisted ← pure (int_tuple blacklisted);
    if list_richcompare Py_EQ V blacklisted
    then raise (VersionMismatch V Mn Mx)
    else mret tt) s
  = (s, if bool_decide (V ∈ Bl) then Raise (VersionMismatch V Mn Mx) else Ok tt).
Proof.
  match goal with |- _ → for_ _ ?f _ = _ => set (body := f) end.
  induction 1 as [|b B bl Bl Hb _ IH]; [done|].
  rewrite for_cons.
  assert (body b s = (s, if list_richcompare Py_EQ V B
                         then Raise (VersionMismatch V Mn Mx) else Ok tt)) as ->.
  { unfold body, mbind, M_bind, pure. rewrite Hb. by destruct (list_richcompare _ _ _). }
  destruct (list_richcompare Py_EQ V B) eqn:E.
  - apply richcompare_EQ in E as ->.
    rewrite bool_decide_eq_true_2; [done|by left].
  - rewrite IH. f_equal.
    assert (V ≠ B) by (intros ->; by rewrite (proj2 (richcompare_EQ B B)) in E).
    rewrite (bool_decide_ext (V ∈ B :: Bl) (V ∈ Bl)); [done|].
    rewrite elem_of_cons. intuition congruence.
Qed.

(** With every argument parsed, [assert_version] is [gate] and leaves the
    state alone. *)
Lemma assert_version_parsed {S} (s : S) v mn mx bl V Mn Mx Bl :
  int_tuple v = Ok V → int_tuple mn = Ok Mn → int_tuple mx = Ok Mx →
  Forall2 (λ b B, int_tuple b = Ok B) bl Bl →
  assert_version v mn mx bl s = (s, gate V Mn Mx Bl).
Proof.
  intros Hv Hmn Hmx Hbl. unfold assert_version, gate, mbind, M_bind, pure.
  rewrite Hv, Hmn, Hmx.
  destruct (_ || _); [done|]. by apply blacklist_loop.
Qed.

(** Two loops whose bodies agree item by item agree. *)
Lemma for_ext {S A B} (body : A → M S unit) (body' : B → M S unit) xs ys s
    (R : A → B → Prop) :
  (∀ x y s, R x y → body x s = body' y s) →
  Forall2 R xs ys → for_ xs body s = for_ ys body' s.
Proof.
  intros Hbody H. revert s. induction H as [|x y xs ys Hxy _ IH]; intros s; [done|].
  rewrite !for_cons, (Hbody x y s Hxy).
  destruct (body' y s) as [s' [[]|e]]; [apply IH|done].
Qed.

(** The outcome of the gate is the same in every program state, and the
    state is handed back as it was. *)
Lemma assert_version_frame {S} (s : S) v mn mx bl :
  assert_version v mn mx bl s = (s, snd (assert_version v mn mx bl tt)).
Proof.
  unfold assert_version, mbind, M_bind, pure.
  destruct (int_tuple v) as [V|]; [|done].
  destruct (int_tuple mn) as [Mn|]; [|done].
  destruct (int_tuple mx) as [Mx|]; [|done].
  destruct (_ || _); [done|].
  match goal with |- for_ _ ?f _ = (_, snd (for_ _ ?g _)) =>
    set (body := f); set (body1 := g) end.
  induction bl as [|b bl IH]; [done|]. rewrite !for_cons.
  unfold body at 1, body1 at 1.
  destruct (int_tuple b) as [B|]; [|done].
  destruct (list_richcompare Py_EQ V B); [done|]. apply IH.
Qed.

(** ** Properties of the version gate *)

(** C1. When the numeric prefixes of the reported version, of the minimum,
    of the maximum and of every blacklist entry parse to integer tuples,
    [assert_version] returns normally exactly when minimum <= version <
    maximum in the lexicographic order and the version's tuple equals no
    blacklist entry's tuple; in every other case it raises
    [VersionMismatch]. With minimum 0.4.21 and maximum 0.6.0, version 0.5.0
    is accepted, 0.6.0 and 0.4.20 are rejected. *)
Theorem assert_version_accepts_iff_supported :
  (∀ (S : Type) (s : S) version minimum maximum blacklist V Mn Mx Bl,
      int_tuple version = Ok V →
      int_tuple minimum = Ok Mn →
      int_tuple maximum = Ok Mx →
      Forall2 (λ b B, int_tuple b = Ok B) blacklist Bl →
      (assert_version version minimum maximum blacklist s = (s, Ok tt)
       ↔ lex_le Mn V ∧ lex_lt V Mx ∧ V ∉ Bl)
      ∧ (¬ (lex_le Mn V ∧ lex_lt V Mx ∧ V ∉ Bl) →
         assert_version version minimum maximum blacklist s
         = (s, Raise (VersionMismatch V Mn Mx))))
  ∧ (∀ (S : Type) (s : S),
      assert_version "0.5.0" "0.4.21" "0.6.0" [] s = (s, Ok tt)
      ∧ assert_version "0.6.0" "0.4.21" "0.6.0" [] s
        = (s, Raise (VersionMismatch [0; 6; 0] [0; 4; 21] [0; 6; 0]))
      ∧ assert_version "0.4.20" "0.4.21" "0.6.0" [] s
        = (s, Raise (VersionMismatch [0; 4; 20] [0; 4; 21] [0; 6; 0]))).
Proof.
  split.
  - intros S s v mn mx bl V Mn Mx Bl Hv Hmn Hmx Hbl.
    rewrite (assert_version_parsed s v mn mx bl V Mn Mx Bl) by done.
    split.
    + rewrite <- (gate_ok V Mn Mx Bl). split; [by intros [= ->]|by intros ->].
    + intros Hno. by rewrite gate_raise.
  - intros S s. repeat split; vm_compute; reflexivity.
Qed.

Lemma assert_version_accepts_iff_supported_witness :
  int_tuple "0.5.0-rc1" = Ok [0; 5; 0]
  ∧ int_tuple "0.4.21" = Ok [0; 4; 21]
  ∧ int_tuple "0.6.0" = Ok [0; 6; 0]
  ∧ Forall2 (λ b B, int_tuple b = Ok B) ["0.5.1"; "0.4.22-dev"] [[0; 5; 1]; [0; 4; 22]]
  ∧ (assert_version "0.5.0-rc1" "0.4.21" "0.6.0" ["0.5.1"; "0.4.22-dev"] tt = (tt, Ok tt)
     ↔ lex_le [0; 4; 21] [0; 5; 0] ∧ lex_lt [0; 5; 0] [0; 6; 0]
       ∧ [0; 5; 0] ∉ [[0; 5; 1]; [0; 4; 22]]).
Proof.
  assert (H : Forall2 (λ b B, int_tuple b = Ok B)
                ["0.5.1"; "0.4.22-dev"] [[0; 5; 1]; [0; 4; 22]])
    by (repeat constructor).
  split; [reflexivity|]. split; [reflexivity|]. split; [reflexivity|].
  split; [exact H|].
  exact (proj1 (proj1 assert_version_accepts_iff_supported unit tt
                  "0.5.0-rc1" "0.4.21" "0.6.0" ["0.5.1"; "0.4.22-dev"]
                  [0; 5; 0] [0; 4; 21] [0; 6; 0] [[0; 5; 1]; [0; 4; 22]]
                  eq_refl eq_refl eq_refl H)).
Defined.

(** C3. The outcome of [assert_version] depends only on the part of each
    version string before its first dash: two calls whose version, minimum,
    maximum and blacklist entries pairwise share that part (as 0.5.0 and
    0.5.0-rc1 do) give the same outcome. *)
Theorem assert_version_ignores_suffix
    (S : Type) (s : S) version version' minimum minimum' maximum maximum'
    blacklist blacklist' :
  before_dash version = before_dash version' →
  before_dash minimum = before_dash minimum' →
  before_dash maximum = before_dash maximum' →
  Forall2 (λ b b', before_dash b = before_dash b') blacklist blacklist' →
  assert_version version minimum maximum blacklist s
  = assert_version version' minimum' maximum' blacklist' s.
Proof.
  intros Hv Hmn Hmx Hbl.
  assert (E : ∀ a b, before_dash a = before_dash b → int_tuple a = int_tuple b).
  { intros a b H. by rewrite !int_tuple_before_dash, H. }
  unfold assert_version, mbind, M_bind, pure.
  rewrite (E _ _ Hv), (E _ _ Hmn), (E _ _ Hmx).
  destruct (int_tuple version') as [V|]; [|done].
  destruct (int_tuple minimum') as [Mn|]; [|done].
  destruct (int_tuple maximum') as [Mx|]; [|done].
  destruct (_ || _); [done|].
  apply (for_ext _ _ _ _ _ (λ b b', before_dash b = before_dash b')); [|done].
  intros b b' s' Hb. by rewrite (E _ _ Hb).
Qed.

Lemma assert_version_ignores_suffix_witness :
  before_dash "0.5.0" = before_dash "0.5.0-rc1"
  ∧ assert_version "0.5.0" "0.4.21" "0.6.0-dev" ["0.5.1"] tt
    = assert_version "0.5.0-rc1" "0.4.21-rc2" "0.6.0" ["0.5.1-beta-2"] tt.
Proof.
  split; [reflexivity|].
  apply (assert_version_ignores_suffix unit tt
           "0.5.0" "0.5.0-rc1" "0.4.21" "0.4.21-rc2" "0.6.0-dev" "0.6.0"
           ["0.5.1"] ["0.5.1-beta-2"] eq_refl eq_refl eq_refl).
  repeat constructor.
Defined.

Lemma for_app {S A} (xs ys : list A) (body : A → M S unit) s :
  for_ (xs ++ ys) body s =
  match for_ xs body s with
  | (s', Ok _) => for_ ys body s'
  | (s', Raise e) => (s', Raise e)
  end.
Proof.
  revert s. induction xs as [|x xs IH]; intros s; [done|].
  simpl app. rewrite !for_cons.
  destruct (body x s) as [s' [[]|e]]; [apply IH|done].
Qed.

Lemma well_formed_list bl :
  Forall well_formed bl → ∃ Bl, Forall2 (λ b B, int_tuple b = Ok B) bl Bl.
Proof.
  induction 1 as [|b bl [B HB]%well_formed_parses _ [Bl HBl]].
  - by exists [].
  - exists (B :: Bl). by constructor.
Qed.

(** C9, as the code has it. If [int] rejects a dot-separated component of
    the part before the first dash of version, minimum or maximum (as for
    version "banana" or "0.x.1"), [assert_version] raises [ValueError], not
    [VersionMismatch]. A blacklist entry with such a component raises
    [ValueError] only when it is reached: when the version is in range and
    equals none of the entries before it; otherwise [VersionMismatch] is
    raised first. When all four arguments are well formed, the outcome is a
    normal return or [VersionMismatch]. *)
Theorem assert_version_value_error :
  (∀ (S : Type) (s : S) version minimum maximum blacklist,
      malformed version ∨ malformed minimum ∨ malformed maximum →
      assert_version version minimum maximum blacklist s = (s, Raise ValueError))
  ∧ (∀ (S : Type) (s : S) version minimum maximum before entry after
       V Mn Mx Before,
      int_tuple version = Ok V →
      int_tuple minimum = Ok Mn →
      int_tuple maximum = Ok Mx →
      Forall2 (λ b B, int_tuple b = Ok B) before Before →
      malformed entry →
      (lex_le Mn V ∧ lex_lt V Mx ∧ V ∉ Before →
       assert_version version minimum maximum (before ++ entry :: after) s
       = (s, Raise ValueError))
      ∧ (¬ (lex_le Mn V ∧ lex_lt V Mx ∧ V ∉ Before) →
         assert_version version minimum maximum (before ++ entry :: after) s
         = (s, Raise (VersionMismatch V Mn Mx))))
  ∧ (∀ (S : Type) (s : S) version minimum maximum blacklist,
      well_formed version → well_formed minimum → well_formed maximum →
      Forall well_formed blacklist →
      ∃ V Mn Mx,
        assert_version version minimum maximum blacklist s = (s, Ok tt)
        ∨ assert_version version minimum maximum blacklist s
          = (s, Raise (VersionMismatch V Mn Mx)))
  ∧ (∀ (S : Type) (s : S),
      assert_version "banana" VERSION_MINIMUM VERSION_MAXIMUM VERSION_BLACKLIST s
      = (s, Raise ValueError)
      ∧ assert_version "0.x.1" VERSION_MINIMUM VERSION_MAXIMUM VERSION_BLACKLIST s
        = (s, Raise ValueError)).
Proof.
  repeat apply conj.
  - intros S s v mn mx bl H.
    unfold assert_version, mbind, M_bind, pure.
    destruct (int_tuple v) as [V|e] eqn:Ev.
    2:{ by rewrite (int_tuple_raise _ _ Ev). }
    destruct H as [H%malformed_raises|H]; [congruence|].
    destruct (int_tuple mn) as [Mn|e] eqn:Emn.
    2:{ by rewrite (int_tuple_raise _ _ Emn). }
    destruct H as [H%malformed_raises|H%malformed_raises]; [congruence|].
    by rewrite H.
  - intros S s v mn mx before entry after V Mn Mx Before Hv Hmn Hmx Hbefore
      Hentry%malformed_raises.
    pose proof (assert_version_parsed s v mn mx before V Mn Mx Before
                  Hv Hmn Hmx Hbefore) as Hgate.
    revert Hgate. unfold assert_version, gate, mbind, M_bind, pure.
    rewrite Hv, Hmn, Hmx.
    rewrite <- richcompare_GT_false, <- richcompare_GE_false.
    destruct (list_richcompare Py_GT Mn V), (list_richcompare Py_GE V Mx);
      simpl; intros Hgate; try (split; [intros (?&?&?); done|done]).
    rewrite for_app, Hgate. case_bool_decide.
    + split; [intros (_&_&?); done|done].
    + split; [|intros []; done]. intros _.
      rewrite for_cons. unfold mbind, M_bind, pure. by rewrite Hentry.
  - intros S s v mn mx bl [V HV]%well_formed_parses [Mn HMn]%well_formed_parses
      [Mx HMx]%well_formed_parses [Bl HBl]%well_formed_list.
    exists V, Mn, Mx.
    rewrite (assert_version_parsed s v mn mx bl V Mn Mx Bl) by done.
    unfold gate. destruct (_ || _); [by right|].
    case_bool_decide; [by right|by left].
  - intros S s. split; vm_compute; reflexivity.
Qed.

Lemma assert_version_value_error_witness :
  malformed "0.x.1"
  ∧ assert_version "0.x.1" "0.4.21" "0.6.0" ["0.5.0"] tt = (tt, Raise ValueError).
Proof.
  assert (H : malformed "0.x.1").
  { apply Exists_cons_tl, Exists_cons_hd. reflexivity. }
  split; [exact H|].
  exact (proj1 assert_version_value_error unit tt
           "0.x.1" "0.4.21" "0.6.0" ["0.5.0"] (or_introl H)).
Defined.

(** C9 as stated fails for blacklist entries: with version 0.7.0, minimum
    0.4.21, maximum 0.6.0 and blacklist ["banana"], the range check raises
    [VersionMismatch] before the entry "banana" is ever parsed; no
    [ValueError] is raised. *)
Lemma malformed_blacklist_entry_not_reached :
  malformed "banana"
  ∧ assert_version "0.7.0" "0.4.21" "0.6.0" ["banana"] tt
    = (tt, Raise (VersionMismatch [0; 7; 0] [0; 4; 21] [0; 6; 0]))
  ∧ snd (assert_version "0.7.0" "0.4.21" "0.6.0" ["banana"] tt) ≠ Raise ValueError.
Proof.
  split; [apply Exists_cons_hd; reflexivity|]. split; [reflexivity|]. discriminate.
Qed.

(** C10, as the code has it. Lists of different lengths are compared
    lexicographically, a proper prefix being strictly smaller. A reported
    version whose tuple is a proper prefix of the maximum's therefore passes
    the upper bound, and is accepted exactly when it is also not below the
    minimum and not blacklisted. With minimum 0.4.21 and maximum 0.6.0,
    version 0.6 is accepted and 0.6.0 is rejected. *)
Theorem proper_prefix_of_maximum :
  (∀ v w,
      (list_richcompare Py_GT v w = true ↔ lex_lt w v)
      ∧ (list_richcompare Py_GE v w = false ↔ lex_lt v w))
  ∧ (∀ V rest, rest ≠ [] →
      list_richcompare Py_GE V (V ++ rest) = false
      ∧ list_richcompare Py_GT (V ++ rest) V = true)
  ∧ (∀ (S : Type) (s : S) version minimum maximum blacklist V Mn rest Bl,
      int_tuple version = Ok V →
      int_tuple minimum = Ok Mn →
      int_tuple maximum = Ok (V ++ rest) →
      rest ≠ [] →
      Forall2 (λ b B, int_tuple b = Ok B) blacklist Bl →
      (assert_version version minimum maximum blacklist s = (s, Ok tt)
       ↔ lex_le Mn V ∧ V ∉ Bl)
      ∧ (¬ (lex_le Mn V ∧ V ∉ Bl) →
         assert_version version minimum maximum blacklist s
         = (s, Raise (VersionMismatch V Mn (V ++ rest)))))
  ∧ (∀ (S : Type) (s : S),
      assert_version "0.6" "0.4.21" "0.6.0" [] s = (s, Ok tt)
      ∧ assert_version "0.6.0" "0.4.21" "0.6.0" [] s
        = (s, Raise (VersionMismatch [0; 6; 0] [0; 4; 21] [0; 6; 0]))).
Proof.
  split; [intros v w; split; [apply richcompare_GT|apply richcompare_GE_false]|].
  split.
  { intros V rest Hrest. split.
    - by apply richcompare_GE_false, lex_lt_app.
    - by apply richcompare_GT, lex_lt_app. }
  split.
  - intros S s version minimum maximum blacklist V Mn rest Bl Hv Hmn Hmx Hrest Hbl.
    rewrite (assert_version_parsed s version minimum maximum blacklist
               V Mn (V ++ rest) Bl) by done.
    pose proof (lex_lt_app V rest Hrest) as Hlt.
    pose proof (gate_ok V Mn (V ++ rest) Bl) as Hok. unfold supported in Hok.
    split.
    + split; [intros [= Hg]|intros H; f_equal]; tauto.
    + intros Hno. f_equal. apply gate_raise. unfold supported. tauto.
  - intros S s. split; vm_compute; reflexivity.
Qed.

Lemma proper_prefix_of_maximum_witness :
  int_tuple "0.6-rc1" = Ok [0; 6]
  ∧ int_tuple "0.6.0" = Ok ([0; 6] ++ [0])
  ∧ (assert_version "0.6-rc1" "0.4.21" "0.6.0" ["0.5.0"] tt = (tt, Ok tt)
     ↔ lex_le [0; 4; 21] [0; 6] ∧ [0; 6] ∉ [[0; 5; 0]]).
Proof.
  split; [reflexivity|]. split; [reflexivity|].
  refine (proj1 (proj1 (proj2 (proj2 proper_prefix_of_maximum)) unit tt
                   "0.6-rc1" "0.4.21" "0.6.0" ["0.5.0"] [0; 6] [0; 4; 21] [0]
                   [[0; 5; 0]] eq_refl eq_refl eq_refl _ _)).
  - discriminate.
  - repeat constructor.
Defined.

(** C10 as stated fails: with minimum 0.4.21 and maximum 0.6.0, version 0
    has the tuple [0], a proper prefix of [0; 6; 0], and is rejected, being
    below the minimum. Version 0.6 is rejected as well once 0.6 is
    blacklisted. *)
Lemma proper_prefix_of_maximum_rejected :
  int_tuple "0" = Ok [0]
  ∧ int_tuple "0.6.0" = Ok ([0] ++ [6; 0])
  ∧ assert_version "0" "0.4.21" "0.6.0" [] tt
    = (tt, Raise (VersionMismatch [0] [0; 4; 21] [0; 6; 0]))
  ∧ assert_version "0.6" "0.4.21" "0.6.0" ["0.6"] tt
    = (tt, Raise (VersionMismatch [0; 6] [0; 4; 21] [0; 6; 0])).
Proof. repeat split. Qed.

(** ** Sessions: closing, scoped acquisition, at most one session *)

Lemma close_fst_closed self : state_of (fst (close self)) = closed.
Proof.
  destruct self as [cs wa [[s|] acq nh]]; reflexivity.
Qed.

Lemma close_snd self : snd (close self) = Ok tt.
Proof.
  destruct self as [cs wa [[s|] acq nh]]; reflexivity.
Qed.

Lemma close_when_closed self :
  state_of self = closed → close self = (self, Ok tt).
Proof.
  destruct self as [cs wa [[s|] acq nh]]; [discriminate|reflexivity].
Qed.

Lemma close_session_inv self : session_inv self → session_inv (fst (close self)).
Proof.
  destruct self as [cs wa [[s|] acq nh]]; unfold session_inv; simpl; [|done].
  intros ->. simpl option_list. by rewrite filter_cons_False by (intros H; by apply H).
Qed.

Lemma close_releases self :
  session_inv self → open_sessions (fst (close self)) = 0%nat.
Proof.
  intros H%close_session_inv. unfold open_sessions. rewrite H.
  pose proof (close_fst_closed self) as Hc. unfold state_of in Hc.
  by destruct (_session _).
Qed.

Lemma enter_session_inv on_reopen self :
  session_inv self → session_inv (fst (__enter__ on_reopen self)).
Proof.
  destruct self as [cs wa [[s|] acq nh]]; unfold session_inv; simpl; [done|].
  by intros ->.
Qed.

Lemma enter_fst_open on_reopen self :
  state_of (fst (__enter__ on_reopen self)) = open.
Proof.
  destruct self as [cs wa [[s|] acq nh]]; reflexivity.
Qed.

Lemma session_inv_count self :
  session_inv self →
  open_sessions self = match state_of self with open => 1%nat | closed => 0%nat end.
Proof.
  unfold session_inv, open_sessions, state_of. intros ->.
  by destruct (_session _).
Qed.

(** C4. [close] is idempotent: on a client with no open session it succeeds
    and leaves the client as it was, so a second [close] changes nothing,
    and opening a session and closing twice ends in the state that closing
    once ends in. *)
Theorem close_idempotent :
  (∀ self, state_of self = closed → close self = (self, Ok tt))
  ∧ (∀ self, close (fst (close self)) = (fst (close self), Ok tt))
  ∧ (∀ on_reopen self,
      (__enter__ on_reopen ;; close ;; close) self
      = (__enter__ on_reopen ;; close) self
      ∧ fst (close (fst (close (fst (__enter__ on_reopen self)))))
        = fst (close (fst (__enter__ on_reopen self)))).
Proof.
  split; [apply close_when_closed|].
  assert (H : ∀ self, close (fst (close self)) = (fst (close self), Ok tt)).
  { intros self. apply close_when_closed, close_fst_closed. }
  split; [exact H|]. intros on_reopen self. split.
  - unfold mbind, M_bind.
    destruct (__enter__ on_reopen self) as [self1 [[]|e]]; [|done].
    pose proof (H self1) as H1. pose proof (close_snd self1) as H2.
    destruct (close self1) as [self2 [[]|e]]; [|done]. simpl in H1.
    by rewrite H1.
  - by rewrite H.
Qed.

Lemma close_idempotent_witness :
  let self := {| chunk_size := 4096%N; _workarounds := ∅;
                 _client := {| _session := None; acquired := [];
                               next_handle := 0%nat |} |} in
  state_of self = closed ∧ close self = (self, Ok tt).
Proof.
  intros self. split; [reflexivity|].
  exact (proj1 close_idempotent self eq_refl).
Defined.

(** C5. [__exit__] calls [close] whatever [exc_type], [exc_value] and
    [traceback] it is given, [None] included, and [close] returns normally
    with no session left open. Hence a [with] scope that was entered ends,
    whether its body returned or raised, with the session released and no
    pooled connection held. *)
Theorem exit_always_closes :
  (∀ exc_type exc_value traceback self,
      __exit__ exc_type exc_value traceback self = close self
      ∧ snd (__exit__ exc_type exc_value traceback self) = Ok tt
      ∧ state_of (fst (__exit__ exc_type exc_value traceback self)) = closed)
  ∧ (∀ (A : Type) on_reopen (body : M Client A) self self1,
      session_inv self →
      (∀ c, session_inv c → session_inv (fst (body c))) →
      __enter__ on_reopen self = (self1, Ok tt) →
      state_of (fst (with_ on_reopen body self)) = closed
      ∧ open_sessions (fst (with_ on_reopen body self)) = 0%nat
      ∧ ((∀ a, snd (body self1) = Ok a → snd (with_ on_reopen body self) = Ok a)
         ∧ (∀ e, snd (body self1) = Raise e →
                 snd (with_ on_reopen body self) = Raise e))).
Proof.
  split.
  - intros exc_type exc_value traceback self. unfold __exit__.
    split; [done|]. split; [apply close_snd|apply close_fst_closed].
  - intros A on_reopen body self self1 Hinv Hbody Henter.
    assert (Hinv1 : session_inv self1).
    { pose proof (enter_session_inv on_reopen self Hinv) as H.
      by rewrite Henter in H. }
    unfold with_, __exit__. rewrite Henter.
    specialize (Hbody self1 Hinv1).
    destruct (body self1) as [self2 [a|e]]; simpl in Hbody;
      pose proof (close_snd self2) as Hs;
      pose proof (close_fst_closed self2) as Hc;
      pose proof (close_releases self2 Hbody) as Hr;
      destruct (close self2) as [self3 [[]|e']]; simpl in *; try done;
      (split; [done|]; split; [done|]; split; congruence).
Qed.

Lemma exit_always_closes_witness :
  let self := {| chunk_size := 4096%N; _workarounds := ∅;
                 _client := {| _session := None; acquired := [];
                               next_handle := 0%nat |} |} in
  let body : M Client unit := raise TimeoutError in
  session_inv self
  ∧ state_of (fst (with_ (Raise AssertionError) body self)) = closed
  ∧ open_sessions (fst (with_ (Raise AssertionError) body self)) = 0%nat
  ∧ snd (with_ (Raise AssertionError) body self) = Raise TimeoutError.
Proof.
  intros self body.
  pose proof (proj2 exit_always_closes unit (Raise AssertionError) body self _
                eq_refl (λ c H, H) eq_refl) as (H1 & H2 & _ & H3).
  split; [reflexivity|]. split; [exact H1|]. split; [exact H2|].
  exact (H3 TimeoutError eq_refl).
Defined.

(** C6. Starting from a client whose pooled connections are exactly its
    session slot, every sequence of [__enter__] and [close] calls keeps at
    most one session open: in each state reached the client holds one
    connection when open and none when closed. [__enter__] leads to the open
    state and [close] to the closed state. *)
Theorem at_most_one_session on_reopen self :
  session_inv self →
  (∀ ops,
      Forall (λ c, (open_sessions c ≤ 1)%nat
                   ∧ open_sessions c
                     = match state_of c with open => 1%nat | closed => 0%nat end)
             (states on_reopen ops self))
  ∧ (∀ c, state_of (fst (run_op on_reopen Enter c)) = open)
  ∧ (∀ c, state_of (fst (run_op on_reopen Close c)) = closed).
Proof.
  intros Hinv. split; [|split; [apply enter_fst_open|apply close_fst_closed]].
  intros ops. revert self Hinv.
  induction ops as [|o ops IH]; intros self Hinv.
  - constructor; [|constructor].
    rewrite (session_inv_count self Hinv). split; [|done].
    destruct (state_of self); lia.
  - simpl. constructor.
    + rewrite (session_inv_count self Hinv). split; [|done].
      destruct (state_of self); lia.
    + apply IH. destruct o; simpl.
      * by apply enter_session_inv.
      * by apply close_session_inv.
Qed.

Lemma at_most_one_session_witness :
  let self := {| chunk_size := 4096%N; _workarounds := ∅;
                 _client := {| _session := None; acquired := [];
                               next_handle := 0%nat |} |} in
  session_inv self
  ∧ Forall (λ c, (open_sessions c ≤ 1)%nat
                 ∧ open_sessions c
                   = match state_of c with open => 1%nat | closed => 0%nat end)
      (states (Ok tt) [Enter; Enter; Close; Close; Enter] self).
Proof.
  intros self. split; [reflexivity|].
  exact (proj1 (at_most_one_session (Ok tt) self eq_refl)
           [Enter; Enter; Close; Close; Enter]).
Defined.

(** ** [connect] and the version gate *)

Section ConnectProperties.
Context {World Addr Defaults : Type}.
Variable Client_init : Addr → string → N → bool → Defaults → M World Client.
Variable Client_version : Client → M World (gmap string string).

Local Abbreviation connect' := (connect Client_init Client_version).

(** C2. When the daemon's reported version fails the version gate, that is,
    [assert_version] raises [VersionMismatch] on it (its tuple lies outside
    minimum <= version < maximum), [connect] raises that [VersionMismatch]
    and hands no client to its caller. [connect] returns a client only
    after the constructor returned, the version query succeeded and
    [assert_version] accepted the reported version. *)
Theorem connect_version_gate addr base chunk_size session defaults (w : World) :
  (∀ client w1 response w2 version_str V Mn Mx,
      Client_init addr base chunk_size session defaults w = (w1, Ok client) →
      Client_version client w1 = (w2, Ok response) →
      response !! "Version" = Some version_str →
      assert_version version_str VERSION_MINIMUM VERSION_MAXIMUM
        VERSION_BLACKLIST w2
      = (w2, Raise (VersionMismatch V Mn Mx)) →
      connect' addr base chunk_size session defaults w
      = (w2, Raise (VersionMismatch V Mn Mx)))
  ∧ (∀ client w1 response w2 version_str V,
      Client_init addr base chunk_size session defaults w = (w1, Ok client) →
      Client_version client w1 = (w2, Ok response) →
      response !! "Version" = Some version_str →
      int_tuple version_str = Ok V →
      ¬ (lex_le [0; 4; 21] V ∧ lex_lt V [0; 6; 0]) →
      connect' addr base chunk_size session defaults w
      = (w2, Raise (VersionMismatch V [0; 4; 21] [0; 6; 0])))
  ∧ (∀ w' returned,
      connect' addr base chunk_size session defaults w = (w', Ok returned) →
      ∃ client w1 response version_str,
        Client_init addr base chunk_size session defaults w = (w1, Ok client)
        ∧ Client_version client w1 = (w', Ok response)
        ∧ response !! "Version" = Some version_str
        ∧ assert_version version_str VERSION_MINIMUM VERSION_MAXIMUM
            VERSION_BLACKLIST w'
          = (w', Ok tt)
        ∧ (returned = client
           ∨ returned = add_workaround "use_http_head_for_no_result" client)).
Proof.
  assert (Hraise : ∀ client w1 response w2 version_str e,
      Client_init addr base chunk_size session defaults w = (w1, Ok client) →
      Client_version client w1 = (w2, Ok response) →
      response !! "Version" = Some version_str →
      assert_version version_str VERSION_MINIMUM VERSION_MAXIMUM
        VERSION_BLACKLIST w2 = (w2, Raise e) →
      connect' addr base chunk_size session defaults w = (w2, Raise e)).
  { intros client w1 response w2 v e Hinit Hver Hkey Hgate.
    unfold connect. unfold mbind at 1, M_bind. rewrite Hinit.
    unfold mbind at 1, M_bind. rewrite Hver.
    unfold mbind at 1, M_bind, pure, dict_getitem. rewrite Hkey.
    unfold mbind at 1, M_bind. by rewrite Hgate. }
  split; [|split].
  - intros client w1 response w2 v V Mn Mx. apply Hraise.
  - intros client w1 response w2 v V Hinit Hver Hkey HV Hout.
    apply (Hraise client w1 response w2 v); try done.
    rewrite (assert_version_parsed w2 v VERSION_MINIMUM VERSION_MAXIMUM
               VERSION_BLACKLIST V [0; 4; 21] [0; 6; 0] []);
      [|done|reflexivity|reflexivity|constructor].
    f_equal. apply gate_raise. unfold supported. tauto.
  - intros w' returned. unfold connect.
    unfold mbind at 1, M_bind.
    destruct (Client_init addr base chunk_size session defaults w)
      as [w1 [client|e]] eqn:Hinit; [|done].
    unfold mbind at 1, M_bind.
    destruct (Client_version client w1) as [w2 [response|e]] eqn:Hver; [|done].
    unfold mbind at 1, M_bind, pure, dict_getitem.
    destruct (response !! "Version") as [v|] eqn:Hkey; [|done].
    unfold mbind at 1, M_bind.
    pose proof (assert_version_frame w2 v VERSION_MINIMUM VERSION_MAXIMUM
                  VERSION_BLACKLIST) as Hframe.
    rewrite Hframe.
    destruct (snd (assert_version v VERSION_MINIMUM VERSION_MAXIMUM
                     VERSION_BLACKLIST tt)) as [[]|e]; [|done].
    unfold mbind, M_bind.
    destruct (int_tuple v) as [V|e]; [|done].
    intros [= <- <-].
    exists client, w1, response, v.
    split; [done|]. split; [done|]. split; [done|]. split; [done|].
    destruct (list_richcompare Py_LT V [0; 5]); auto.
Qed.

End ConnectProperties.

(** A daemon that answers the version query with the string it holds. *)
Lemma connect_version_gate_witness :
  let new_client (_ : unit) (_ : string) (chunk_size : N) (_ : bool) (_ : unit)
      : M string Client :=
    mret {| chunk_size := chunk_size; _workarounds := ∅;
            _client := {| _session := None; acquired := [];
                          next_handle := 0%nat |} |} in
  let query (_ : Client) : M string (gmap string string) :=
    λ daemon, (daemon, Ok {[ "Version" := daemon ]}) in
  assert_version "0.7.0-dev" VERSION_MINIMUM VERSION_MAXIMUM VERSION_BLACKLIST
    "0.7.0-dev"
  = ("0.7.0-dev", Raise (VersionMismatch [0; 7; 0] [0; 4; 21] [0; 6; 0]))
  ∧ connect new_client query () "api/v0" 4096%N false () "0.7.0-dev"
    = ("0.7.0-dev", Raise (VersionMismatch [0; 7; 0] [0; 4; 21] [0; 6; 0])).
Proof.
  intros new_client query. split; [reflexivity|].
  exact (proj1 (connect_version_gate new_client query () "api/v0" 4096%N false ()
                  "0.7.0-dev")
           _ _ _ _ "0.7.0-dev" _ _ _ eq_refl eq_refl eq_refl eq_refl).
Defined.

(** ** Further properties of the version tuples *)

Lemma int_unfold s :
  int s =
  match skip_space s with
  | String c r =>
      if Ascii.eqb c "+" then int_digits 1 r
      else if Ascii.eqb c "-" then int_digits (-1) r
      else int_digits 1 (String c r)
  | EmptyString => Raise ValueError
  end.
Proof.
  unfold int. destruct (skip_space s) as [|c r]; [reflexivity|].
  assert (Hd : ∀ sign s2,
    match s2 with
    | String "_" _ => Raise ValueError
    | _ =>
        '(value, seen, rest) ← scan_digits s2 false false 0;
        if negb seen then Raise ValueError
        else match skip_space rest with
             | EmptyString => Ok (sign * value)
             | _ => Raise ValueError
             end
    end = int_digits sign s2).
  { intros sign [|c' r']; [reflexivity|]. unfold int_digits.
    generalize (scan_digits (String c' r') false false 0). intros scanned.
    destruct c' as [[] [] [] [] [] [] [] []]; reflexivity. }
  destruct c as [[] [] [] [] [] [] [] []];
    match goal with
    | |- _ = ?R =>
        let R' := eval cbv beta iota delta [Ascii.eqb Bool.eqb] in R in
        lazymatch R' with
        | int_digits ?sign ?s2 => exact (Hd sign s2)
        end
    end.
Qed.

Lemma digit_value_nonneg c d : digit_value c = Some d → 0 ≤ d.
Proof.
  unfold digit_value. destruct (_ && _) eqn:E; [|done].
  intros [= <-]. apply andb_prop in E as [E _]. apply N.leb_le in E. lia.
Qed.

Lemma scan_digits_nonneg s p seen acc value seen' rest :
  0 ≤ acc → scan_digits s p seen acc = Ok (value, seen', rest) → 0 ≤ value.
Proof.
  revert p seen acc. induction s as [|c s IH]; intros p seen acc Hacc; simpl.
  - destruct p; [done|]. by intros [= <- _ _].
  - destruct (Ascii.eqb c "_").
    + destruct p; [done|]. by apply IH.
    + destruct (digit_value c) as [d|] eqn:Ed.
      * apply IH. apply digit_value_nonneg in Ed. lia.
      * destruct p; [done|]. by intros [= <- _ _].
Qed.

Lemma int_digits_value sign s2 z :
  int_digits sign s2 = Ok z → ∃ value, z = sign * value ∧ 0 ≤ value.
Proof.
  unfold int_digits. destruct s2 as [|c r]; [done|].
  destruct (Ascii.eqb c "_"); [done|].
  destruct (scan_digits (String c r) false false 0) as [[[value seen] rest]|e] eqn:E;
    [|done].
  simpl. destruct seen; simpl; [|done]. destruct (skip_space rest); [|done].
  intros [= <-]. exists value. split; [done|].
  by eapply scan_digits_nonneg in E.
Qed.

Lemma skip_space_count c s : count_char c s = 0%nat → count_char c (skip_space s) = 0%nat.
Proof.
  induction s as [|c' s IH]; [done|]. simpl.
  destruct (py_isspace c'); [|done]. intros H. apply IH. lia.
Qed.

(** Without a minus sign in the string, [int] yields no negative number. *)
Lemma int_nonneg s z : count_char "-" s = 0%nat → int s = Ok z → 0 ≤ z.
Proof.
  intros Hs%skip_space_count. rewrite int_unfold.
  destruct (skip_space s) as [|c r]; [done|]. simpl in Hs.
  destruct (Ascii.eqb c "+").
  - intros (value & -> & ?)%int_digits_value. lia.
  - destruct (Ascii.eqb c "-"); [done|].
    intros (value & -> & ?)%int_digits_value. lia.
Qed.

Lemma before_dash_count v : count_char "-" (before_dash v) = 0%nat.
Proof.
  induction v as [|c v IH]; [done|]. simpl.
  destruct (Ascii.eqb c "-") eqn:E; [done|]. simpl. by rewrite E.
Qed.

Lemma split_count c sep maxsplit s :
  count_char c s = 0%nat →
  Forall (λ piece, count_char c piece = 0%nat) (split sep maxsplit s).
Proof.
  revert maxsplit. induction s as [|c' s IH]; intros maxsplit Hs.
  - by repeat constructor.
  - simpl in Hs.
    assert (Hc : Ascii.eqb c' c = false) by (destruct (Ascii.eqb c' c); [done|done]).
    assert (Hs' : count_char c s = 0%nat) by (rewrite Hc in Hs; done).
    assert (Hwhole : count_char c (String c' s) = 0%nat) by (simpl; by rewrite Hc).
    simpl split.
    assert (Hgo : ∀ m,
      Forall (λ piece, count_char c piece = 0%nat)
        (if Ascii.eqb c' sep then EmptyString :: split sep (pred <$> m) s
         else match split sep m s with
              | piece :: pieces => String c' piece :: pieces
              | [] => [String c' EmptyString]
              end)).
    { intros m. destruct (Ascii.eqb c' sep).
      - constructor; [done|by apply IH].
      - pose proof (IH m Hs') as H. destruct (split sep m s) as [|piece pieces].
        + repeat constructor. simpl. by rewrite Hc.
        + apply Forall_cons in H as [H1 H2]. constructor; [|done].
          simpl. by rewrite Hc. }
    destruct maxsplit as [[|n]|]; [by repeat constructor|apply Hgo|apply Hgo].
Qed.

Lemma split_length sep s :
  length (split sep None s) = Datatypes.S (count_char sep s).
Proof.
  induction s as [|c s IH]; [done|]. simpl.
  destruct (Ascii.eqb c sep); simpl; [by rewrite IH|].
  destruct (split sep None s); simpl in *; done.
Qed.

Lemma mapM_int_Forall2 l L : mapM int l = Ok L → Forall2 (λ c z, int c = Ok z) l L.
Proof.
  revert L. induction l as [|c l IH]; intros L.
  - intros [= <-]. constructor.
  - rewrite mapM_int_cons. destruct (int c) as [z|] eqn:E; [|done].
    destruct (mapM int l) as [L'|]; [|done]. intros [= <-].
    constructor; [done|by apply IH].
Qed.

(** X1. The integers of a parsed version are never negative: the text is
    cut at the first dash before [int] sees it, so no component carries a
    minus sign. *)
Theorem int_tuple_nonneg v V : int_tuple v = Ok V → Forall (λ z, 0 ≤ z) V.
Proof.
  rewrite int_tuple_before_dash. intros H%mapM_int_Forall2.
  pose proof (split_count "-" "." None _ (before_dash_count v)) as Hdash.
  induction H as [|c z l L Hc _ IH]; [constructor|].
  apply Forall_cons in Hdash as [Hc0 Hl]. constructor; [|by apply IH].
  by apply (int_nonneg c).
Qed.

Lemma int_tuple_nonneg_witness :
  int_tuple " +0.05.1_0 -rc1" = Ok [0; 5; 10] ∧ Forall (λ z, 0 ≤ z) [0; 5; 10].
Proof.
  split; [reflexivity|].
  exact (int_tuple_nonneg " +0.05.1_0 -rc1" [0; 5; 10] eq_refl).
Defined.

(** X2. A parsed version has one integer per dot-separated component of
    the part before the first dash: one more than that part has dots. It is
    never empty. *)
Theorem int_tuple_length v V :
  int_tuple v = Ok V →
  length V = Datatypes.S (count_char "." (before_dash v)) ∧ V ≠ [].
Proof.
  rewrite int_tuple_before_dash. intros H%mapM_int_Forall2.
  apply Forall2_length in H. rewrite split_length in H.
  split; [done|]. intros ->. done.
Qed.

Lemma int_tuple_length_witness :
  int_tuple "0.4.21-rc1.2" = Ok [0; 4; 21]
  ∧ length [0; 4; 21] = Datatypes.S (count_char "." (before_dash "0.4.21-rc1.2")).
Proof.
  split; [reflexivity|].
  exact (proj1 (int_tuple_length "0.4.21-rc1.2" [0; 4; 21] eq_refl)).
Defined.

(** ** Further properties of the version gate *)

Lemma lex_lt_trans u v w : lex_lt u v → lex_lt v w → lex_lt u w.
Proof.
  intros H. revert w. induction H as [y v|x u y v Hxy|x u v _ IH]; intros w Hw.
  - destruct w; [by apply lex_lt_nil_r in Hw|constructor].
  - destruct w as [|z w]; [by apply lex_lt_nil_r in Hw|].
    apply lex_lt_cons in Hw as [?|[-> _]]; apply lex_lt_head; lia.
  - destruct w as [|z w]; [by apply lex_lt_nil_r in Hw|].
    apply lex_lt_cons in Hw as [?|[-> ?]].
    + by apply lex_lt_head.
    + apply lex_lt_tail. by apply IH.
Qed.

Lemma in_range_bool V Mn Mx :
  list_richcompare Py_GT Mn V || list_richcompare Py_GE V Mx = false
  ↔ lex_le Mn V ∧ lex_lt V Mx.
Proof.
  rewrite <- richcompare_GT_false, <- richcompare_GE_false.
  destruct (list_richcompare Py_GT Mn V), (list_richcompare Py_GE V Mx);
    simpl; intuition congruence.
Qed.

Lemma blacklist_loop_raise {S} (s s' : S) V Mn Mx bl e :
  for_ bl (λ blacklisted,
    blacklisted ← pure (int_tuple blacklisted);
    if list_richcompare Py_EQ V blacklisted
    then raise (VersionMismatch V Mn Mx)
    else mret tt) s = (s', Raise e) →
  e = ValueError ∨ e = VersionMismatch V Mn Mx.
Proof.
  match goal with |- for_ _ ?f _ = _ → _ => set (body := f) end.
  induction bl as [|b bl IH]; [done|]. rewrite for_cons.
  unfold body at 1, mbind, M_bind, pure, raise.
  destruct (int_tuple b) as [B|e'] eqn:Eb.
  - destruct (list_richcompare Py_EQ V B).
    + intros [= _ <-]. by right.
    + apply IH.
  - intros [= _ <-]. left. by apply int_tuple_raise in Eb.
Qed.

(** X3. A [VersionMismatch] raised by [assert_version] carries the parsed
    integer lists of the version, the minimum and the maximum it was called
    with, in that order, whatever the blacklist holds. *)
Theorem version_mismatch_payload (S : Type) (s s' : S)
    version minimum maximum blacklist V Mn Mx :
  assert_version version minimum maximum blacklist s
  = (s', Raise (VersionMismatch V Mn Mx)) →
  int_tuple version = Ok V ∧ int_tuple minimum = Ok Mn ∧ int_tuple maximum = Ok Mx.
Proof.
  unfold assert_version, mbind, M_bind, pure, raise.
  destruct (int_tuple version) as [V'|e] eqn:Ev.
  2:{ intros [= _ He]. apply int_tuple_raise in Ev. congruence. }
  destruct (int_tuple minimum) as [Mn'|e] eqn:Emn.
  2:{ intros [= _ He]. apply int_tuple_raise in Emn. congruence. }
  destruct (int_tuple maximum) as [Mx'|e] eqn:Emx.
  2:{ intros [= _ He]. apply int_tuple_raise in Emx. congruence. }
  destruct (_ || _).
  - by intros [= _ -> -> ->].
  - intros [H|H]%blacklist_loop_raise; [done|]. by injection H as -> -> ->.
Qed.

Lemma version_mismatch_payload_witness :
  assert_version "0.5.0-rc1" "0.4.21" "0.6.0" ["x"; "0.5.0"] tt
  = (tt, Raise ValueError)
  ∧ assert_version "0.5.0-rc1" "0.4.21" "0.6.0" ["0.5.0"; "x"] tt
    = (tt, Raise (VersionMismatch [0; 5; 0] [0; 4; 21] [0; 6; 0]))
  ∧ int_tuple "0.5.0-rc1" = Ok [0; 5; 0].
Proof.
  split; [reflexivity|]. split; [reflexivity|].
  exact (proj1 (version_mismatch_payload unit tt tt
                  "0.5.0-rc1" "0.4.21" "0.6.0" ["0.5.0"; "x"]
                  [0; 5; 0] [0; 4; 21] [0; 6; 0] eq_refl)).
Defined.

(** X4. The range is checked before the blacklist is looked at: a version
    outside minimum <= version < maximum raises [VersionMismatch] for every
    blacklist, also one with entries that [int] would reject. *)
Theorem out_of_range_before_blacklist (S : Type) (s : S)
    version minimum maximum blacklist V Mn Mx :
  int_tuple version = Ok V →
  int_tuple minimum = Ok Mn →
  int_tuple maximum = Ok Mx →
  ¬ (lex_le Mn V ∧ lex_lt V Mx) →
  assert_version version minimum maximum blacklist s
  = (s, Raise (VersionMismatch V Mn Mx)).
Proof.
  intros Hv Hmn Hmx Hout. unfold assert_version, mbind, M_bind, pure, raise.
  rewrite Hv, Hmn, Hmx.
  destruct (_ || _) eqn:E; [done|]. by apply in_range_bool in E.
Qed.

Lemma out_of_range_before_blacklist_witness :
  ¬ (lex_le [0; 4; 21] [0; 4; 20] ∧ lex_lt [0; 4; 20] [0; 6; 0])
  ∧ assert_version "0.4.20" "0.4.21" "0.6.0" ["not.a.version"; ""] tt
    = (tt, Raise (VersionMismatch [0; 4; 20] [0; 4; 21] [0; 6; 0])).
Proof.
  assert (H : ¬ (lex_le [0; 4; 21] [0; 4; 20] ∧ lex_lt [0; 4; 20] [0; 6; 0])).
  { intros [H _]. apply richcompare_GT_false in H. discriminate. }
  split; [exact H|].
  exact (out_of_range_before_blacklist unit tt "0.4.20" "0.4.21" "0.6.0"
           ["not.a.version"; ""] [0; 4; 20] [0; 4; 21] [0; 6; 0]
           eq_refl eq_refl eq_refl H).
Defined.

(** X5. When the maximum is not above the minimum the range is empty:
    every version that parses is rejected with [VersionMismatch]. *)
Theorem empty_range_rejects_all (S : Type) (s : S)
    version minimum maximum blacklist V Mn Mx :
  int_tuple version = Ok V →
  int_tuple minimum = Ok Mn →
  int_tuple maximum = Ok Mx →
  lex_le Mx Mn →
  assert_version version minimum maximum blacklist s
  = (s, Raise (VersionMismatch V Mn Mx)).
Proof.
  intros Hv Hmn Hmx Hempty. apply out_of_range_before_blacklist; try done.
  intros [[<-|Hlo] Hhi].
  - destruct Hempty as [->|H]; [by apply lex_lt_irrefl in Hhi|].
    by apply (lex_lt_irrefl Mn), (lex_lt_trans _ Mx).
  - destruct Hempty as [->|H].
    + by apply (lex_lt_irrefl Mn), (lex_lt_trans _ V).
    + by apply (lex_lt_irrefl Mn), (lex_lt_trans _ V), (lex_lt_trans _ Mx).
Qed.

Lemma empty_range_rejects_all_witness :
  lex_le [0; 6] [0; 6; 0]
  ∧ assert_version "0.6" "0.6.0" "0.6" [] tt
    = (tt, Raise (VersionMismatch [0; 6] [0; 6; 0] [0; 6])).
Proof.
  assert (H : lex_le [0; 6] [0; 6; 0]).
  { right. apply (lex_lt_app [0; 6] [0]). discriminate. }
  split; [exact H|].
  exact (empty_range_rejects_all unit tt "0.6" "0.6.0" "0.6" []
           [0; 6] [0; 6; 0] [0; 6] eq_refl eq_refl eq_refl H).
Defined.

(** X6. For blacklists whose entries all parse, only the set of blacklisted
    versions counts: their order, repetitions and the spelling of an entry
    (suffix, padding) do not change the outcome. *)
Theorem blacklist_order_irrelevant (S : Type) (s : S)
    version minimum maximum blacklist blacklist' V Mn Mx Bl Bl' :
  int_tuple version = Ok V →
  int_tuple minimum = Ok Mn →
  int_tuple maximum = Ok Mx →
  Forall2 (λ b B, int_tuple b = Ok B) blacklist Bl →
  Forall2 (λ b B, int_tuple b = Ok B) blacklist' Bl' →
  (∀ B, B ∈ Bl ↔ B ∈ Bl') →
  assert_version version minimum maximum blacklist s
  = assert_version version minimum maximum blacklist' s.
Proof.
  intros Hv Hmn Hmx Hbl Hbl' Hset.
  rewrite (assert_version_parsed s version minimum maximum blacklist V Mn Mx Bl),
    (assert_version_parsed s version minimum maximum blacklist' V Mn Mx Bl')
    by done.
  unfold gate. by rewrite (bool_decide_ext _ _ (Hset V)).
Qed.

Lemma blacklist_order_irrelevant_witness :
  assert_version "0.5.1" "0.4.21" "0.6.0" ["0.5.0"; "0.5.1-rc1"] tt
  = assert_version "0.5.1" "0.4.21" "0.6.0" ["0.05.1"; "0.5.0-x"; " 0.5.1"] tt.
Proof.
  apply (blacklist_order_irrelevant unit tt "0.5.1" "0.4.21" "0.6.0"
           ["0.5.0"; "0.5.1-rc1"] ["0.05.1"; "0.5.0-x"; " 0.5.1"]
           [0; 5; 1] [0; 4; 21] [0; 6; 0]
           [[0; 5; 0]; [0; 5; 1]] [[0; 5; 1]; [0; 5; 0]; [0; 5; 1]]
           eq_refl eq_refl eq_refl).
  - repeat constructor.
  - repeat constructor.
  - intros B. rewrite !elem_of_cons, !elem_of_nil. tauto.
Defined.

Lemma lex_le_nil_l w : lex_le [] w ↔ True.
Proof. split; [done|]. intros _. destruct w; [by left|right; constructor]. Qed.

Lemma lex_le_nil_r x v : lex_le (x :: v) [] ↔ False.
Proof. split; [|done]. by intros [?|?%lex_lt_nil_r]. Qed.

Lemma lex_lt_nil_l y w : lex_lt [] (y :: w) ↔ True.
Proof. split; [done|constructor]. Qed.

Lemma lex_lt_nil_iff v : lex_lt v [] ↔ False.
Proof. split; [apply lex_lt_nil_r|done]. Qed.

Ltac lex_arith :=
  rewrite ?lex_le_cons, ?lex_lt_cons, ?lex_le_nil_l, ?lex_le_nil_r,
    ?lex_lt_nil_l, ?lex_lt_nil_iff.

Lemma default_range V :
  Forall (λ z, 0 ≤ z) V →
  lex_le [0; 4; 21] V ∧ lex_lt V [0; 6; 0] ↔ default_supported V.
Proof.
  intros Hpos. unfold default_supported.
  destruct V as [|a [|b [|c r]]]; lex_arith.
  - split; [tauto|]. intros [(?&?&?&_)|[(?&?)|?]]; done.
  - split; [lia|]. intros [(?&?&?&_)|[(?&?)|?]]; done.
  - split.
    + intros H. destruct (decide (b = 5)) as [->|].
      * right; left. exists []. f_equal. lia.
      * right; right. f_equal; [lia|]. f_equal. lia.
    + intros [(?&?&?&_)|[(?&[= -> ->])|[= -> ->]]]; [done|lia|lia].
  - rewrite !Forall_cons in Hpos. destruct Hpos as (_ & _ & Hc & _). split.
    + intros H. destruct (decide (b = 5)) as [->|].
      * right; left. exists (c :: r). f_equal. lia.
      * left. exists c, r. split; [|lia]. f_equal; [lia|]. f_equal. lia.
    + intros [(p&rest&[= -> -> -> ->]&Hp)|[(rest&[= -> -> <-])|?]]; [lia|lia|done].
Qed.

(** X7. With the module's own bounds and blacklist, a version that parses
    is accepted exactly when it is 0.4.p for some p from 21 on (whatever
    follows), 0.5 (whatever follows), or the bare 0.6. *)
Theorem assert_version_defaults (S : Type) (s : S) version V :
  int_tuple version = Ok V →
  (assert_version version VERSION_MINIMUM VERSION_MAXIMUM VERSION_BLACKLIST s
   = (s, Ok tt) ↔ default_supported V)
  ∧ (¬ default_supported V →
     assert_version version VERSION_MINIMUM VERSION_MAXIMUM VERSION_BLACKLIST s
     = (s, Raise (VersionMismatch V [0; 4; 21] [0; 6; 0]))).
Proof.
  intros Hv.
  pose proof (default_range V (int_tuple_nonneg _ _ Hv)) as Hrange.
  rewrite (assert_version_parsed s version VERSION_MINIMUM VERSION_MAXIMUM
             VERSION_BLACKLIST V [0; 4; 21] [0; 6; 0] [])
    by (done || constructor).
  pose proof (gate_ok V [0; 4; 21] [0; 6; 0] []) as Hok. unfold supported in Hok.
  assert (Hnil : V ∉ ([] : list (list Z))) by apply not_elem_of_nil.
  split.
  - split; [intros [= Hg]|intros H; f_equal]; tauto.
  - intros Hno. f_equal. apply gate_raise. unfold supported. tauto.
Qed.

Lemma assert_version_defaults_witness :
  int_tuple "0.4.23-dev" = Ok [0; 4; 23]
  ∧ (assert_version "0.4.23-dev" VERSION_MINIMUM VERSION_MAXIMUM
       VERSION_BLACKLIST tt = (tt, Ok tt)
     ↔ default_supported [0; 4; 23]).
Proof.
  split; [reflexivity|].
  exact (proj1 (assert_version_defaults unit tt "0.4.23-dev" [0; 4; 23] eq_refl)).
Defined.

(** X8. An empty version string, or one that begins with a dash, has an
    empty first component: [assert_version] raises [ValueError] on it,
    whatever the other arguments are. *)
Theorem empty_version_value_error (S : Type) (s : S)
    version minimum maximum blacklist :
  version = EmptyString ∨ (∃ rest, version = String "-" rest) →
  assert_version version minimum maximum blacklist s = (s, Raise ValueError).
Proof.
  intros H.
  assert (Hv : int_tuple version = Raise ValueError).
  { apply malformed_raises. unfold malformed.
    assert (before_dash version = EmptyString) as ->
      by (destruct H as [->|[rest ->]]; reflexivity).
    apply Exists_cons_hd. reflexivity. }
  unfold assert_version, mbind, M_bind, pure. by rewrite Hv.
Qed.

Lemma empty_version_value_error_witness :
  assert_version "-rc1" "0.4.21" "0.6.0" [] tt = (tt, Raise ValueError).
Proof.
  exact (empty_version_value_error unit tt "-rc1" "0.4.21" "0.6.0" []
           (or_intror (ex_intro _ "rc1" eq_refl))).
Defined.

(** ** Further properties of [connect] *)

Section ConnectOutcomes.
Context {World Addr Defaults : Type}.
Variable Client_init : Addr → string → N → bool → Defaults → M World Client.
Variable Client_version : Client → M World (gmap string string).

(** [connect] once the constructor and the version query have returned. *)
Lemma connect_after_query addr base chunk session defaults
    (w w1 w2 : World) client response version_str :
  Client_init addr base chunk session defaults w = (w1, Ok client) →
  Client_version client w1 = (w2, Ok response) →
  response !! "Version" = Some version_str →
  connect Client_init Client_version addr base chunk session defaults w =
  match snd (assert_version version_str VERSION_MINIMUM VERSION_MAXIMUM
               VERSION_BLACKLIST tt) with
  | Ok _ =>
      match int_tuple version_str with
      | Ok V =>
          (w2, Ok (if list_richcompare Py_LT V [0; 5]
                   then add_workaround "use_http_head_for_no_result" client
                   else client))
      | Raise e => (w2, Raise e)
      end
  | Raise e => (w2, Raise e)
  end.
Proof.
  intros Hinit Hver Hkey. unfold connect.
  unfold mbind at 1, M_bind. rewrite Hinit.
  unfold mbind at 1, M_bind. rewrite Hver.
  unfold mbind at 1, M_bind, pure, dict_getitem. rewrite Hkey.
  unfold mbind at 1, M_bind. rewrite (assert_version_frame w2).
  destruct (snd _) as [[]|e]; [|done].
  unfold mbind, M_bind. by destruct (int_tuple version_str).
Qed.


(** X11. A failure of the constructor or of the version query is what
    [connect] raises, in the program state that call left; after a failed
    constructor the daemon is not queried. *)
Theorem connect_propagates_failure addr base chunk session defaults
    (w : World) :
  (∀ w1 e,
      Client_init addr base chunk session defaults w = (w1, Raise e) →
      connect Client_init Client_version addr base chunk session defaults w
      = (w1, Raise e))
  ∧ (∀ w1 client w2 e,
      Client_init addr base chunk session defaults w = (w1, Ok client) →
      Client_version client w1 = (w2, Raise e) →
      connect Client_init Client_version addr base chunk session defaults w
      = (w2, Raise e)).
Proof.
  split.
  - intros w1 e Hinit. unfold connect. unfold mbind at 1, M_bind.
    by rewrite Hinit.
  - intros w1 client w2 e Hinit Hver. unfold connect.
    unfold mbind at 1, M_bind. rewrite Hinit.
    unfold mbind at 1, M_bind. by rewrite Hver.
Qed.

(** X12. A response the gate cannot read fails [connect] with an untyped
    error: without a "Version" entry it raises [KeyError], and with a
    version string that [int] rejects it raises [ValueError]; neither is a
    [VersionMismatch]. *)
Theorem connect_unreadable_version addr base chunk session defaults
    (w w1 w2 : World) client response :
  Client_init addr base chunk session defaults w = (w1, Ok client) →
  Client_version client w1 = (w2, Ok response) →
  (response !! "Version" = None →
   connect Client_init Client_version addr base chunk session defaults w
   = (w2, Raise (KeyError "Version")))
  ∧ (∀ version_str,
      response !! "Version" = Some version_str →
      malformed version_str →
      connect Client_init Client_version addr base chunk session defaults w
      = (w2, Raise ValueError)).
Proof.
  intros Hinit Hver. split.
  - intros Hkey. unfold connect.
    unfold mbind at 1, M_bind. rewrite Hinit.
    unfold mbind at 1, M_bind. rewrite Hver.
    unfold mbind at 1, M_bind, pure, dict_getitem. by rewrite Hkey.
  - intros v Hkey Hbad%malformed_raises.
    rewrite (connect_after_query _ _ _ _ _ _ _ _ _ _ _ Hinit Hver Hkey).
    unfold assert_version, mbind, M_bind, pure. by rewrite Hbad.
Qed.

End ConnectOutcomes.


Lemma connect_propagates_failure_witness :
  let new_client (_ : unit) (_ : string) (_ : N) (_ : bool) (_ : unit)
      : M (list string) Client := λ log, ("init" :: log, Raise ConnectionError) in
  let query (_ : Client) : M (list string) (gmap string string) :=
    λ log, ("version" :: log, Ok ∅) in
  connect new_client query () "api/v0" 4096%N false () []
  = (["init"], Raise ConnectionError).
Proof.
  intros new_client query.
  exact (proj1 (connect_propagates_failure new_client query () "api/v0" 4096%N
                  false () []) ["init"] ConnectionError eq_refl).
Defined.

Lemma connect_unreadable_version_witness :
  let new_client (_ : unit) (_ : string) (chunk : N) (_ : bool) (_ : unit)
      : M (gmap string string) Client :=
    mret {| chunk_size := chunk; _workarounds := ∅;
            _client := {| _session := None; acquired := [];
                          next_handle := 0%nat |} |} in
  let query (_ : Client) : M (gmap string string) (gmap string string) :=
    λ daemon, (daemon, Ok daemon) in
  connect new_client query () "api/v0" 4096%N false () {[ "Commit" := "abc" ]}
  = ({[ "Commit" := "abc" ]}, Raise (KeyError "Version")).
Proof.
  intros new_client query.
  exact (proj1 (connect_unreadable_version new_client query () "api/v0" 4096%N
                  false () {[ "Commit" := "abc" ]} _ _ _ _ eq_refl eq_refl)
           eq_refl).
Defined.

(** ** Re-opening a client *)

(** X13. On a client with no session open, a [with] scope is always
    entered, whatever [open_session] does on a client that is already open:
    the body runs with a session open, the scope ends with the body's own
    outcome, and the client is left closed with nothing held, ready for the
    next scope. *)
Theorem scope_on_closed_client (A : Type) on_reopen (body : M Client A) self :
  state_of self = closed →
  session_inv self →
  (∀ c, session_inv c → session_inv (fst (body c))) →
  ∃ entered,
    __enter__ on_reopen self = (entered, Ok tt)
    ∧ state_of entered = open
    ∧ snd (with_ on_reopen body self) = snd (body entered)
    ∧ state_of (fst (with_ on_reopen body self)) = closed
    ∧ session_inv (fst (with_ on_reopen body self))
    ∧ open_sessions (fst (with_ on_reopen body self)) = 0%nat.
Proof.
  intros Hclosed Hinv Hbody.
  pose proof (enter_session_inv on_reopen self Hinv) as Hinv1.
  pose proof (enter_fst_open on_reopen self) as Hopen.
  assert (Hok : snd (__enter__ on_reopen self) = Ok tt).
  { destruct self as [cs wa [[h|] acq nh]]; [discriminate|reflexivity]. }
  unfold with_, __exit__.
  destruct (__enter__ on_reopen self) as [entered r]. simpl in *. subst r.
  exists entered. split; [done|]. split; [done|].
  specialize (Hbody entered Hinv1).
  destruct (body entered) as [self2 [a|e]]; simpl in Hbody |- *;
    pose proof (close_snd self2) as Hs;
    pose proof (close_fst_closed self2) as Hc;
    pose proof (close_session_inv self2 Hbody) as Hi;
    pose proof (close_releases self2 Hbody) as Hr;
    destruct (close self2) as [self3 [[]|e']]; simpl in *; done.
Qed.

Lemma scope_on_closed_client_witness :
  let self := {| chunk_size := 4096%N; _workarounds := ∅;
                 _client := {| _session := None; acquired := [];
                               next_handle := 3%nat |} |} in
  let body : M Client session_state := λ c, (c, Ok (state_of c)) in
  state_of self = closed
  ∧ snd (with_ (Raise AssertionError) body self) = Ok open
  ∧ state_of (fst (with_ (Raise AssertionError) body self)) = closed.
Proof.
  intros self body. split; [reflexivity|].
  destruct (scope_on_closed_client session_state (Raise AssertionError) body self
              eq_refl eq_refl (λ c H, H))
    as (entered & Henter & _ & Hout & Hclosed & _).
  injection Henter as <-. split; [exact Hout|exact Hclosed].
Defined.
